(** * SylphxAI/ast: the CST node model, the traversal and filter utilities,
      position derivation and the parse entry point.

    The development follows the TypeScript of the repository:
    - [@sylphlab/ast-core]: [Position], [CstNode], [Token], [isToken],
      [hasChildren] (docs/packages/core);
    - the utility functions of docs/api/index.md: [traverse],
      [findNodesByType], [getSourceText], [filterNodes], [findFirst];
    - [extractIdentifiers] of docs/packages/javascript.md;
    - [getLocation], the [AstBuilderVisitor] and [parse] of the
      adding-languages guide.

    JavaScript numbers that hold offsets are integers ([Z]); an optional field
    ([children?]) is an [option]; a callback that works by side effect is a
    state transformer, and a call that may throw returns an [Outcome]. *)

From Stdlib Require Import List String Ascii ZArith Lia Bool.
Import ListNotations.

Set Implicit Arguments.

(* ===================================================================== *)
(** ** JavaScript built-ins used by the source *)

(** [String.prototype.substring(a, b)]: both indices are clamped to
    [0 .. length], and swapped when [a > b]. *)
Definition js_substring (s : string) (a b : Z) : string :=
  let len := Z.of_nat (String.length s) in
  let a' := Z.min (Z.max a 0) len in
  let b' := Z.min (Z.max b 0) len in
  let lo := Z.min a' b' in
  let hi := Z.max a' b' in
  substring (Z.to_nat lo) (Z.to_nat (hi - lo)) s.

(** [xs.filter((x): x is T => x !== null)] on an array of [T | null]. *)
Fixpoint filter_not_null {A : Type} (xs : list (option A)) : list A :=
  match xs with
  | [] => []
  | Some x :: rest => x :: filter_not_null rest
  | None :: rest => filter_not_null rest
  end.

(* ===================================================================== *)
(** ** @sylphlab/ast-core *)

Module Core.

(** [interface Position { startOffset: number; endOffset: number }] *)
Record Position : Type := mkPosition {
  startOffset : Z;
  endOffset : Z
}.

(** [interface CstNode { type; text; position; children?: CstNode[] }].
    [children = None] is the field being [undefined]. *)
Unset Elimination Schemes.
Inductive CstNode : Type :=
  mkCstNode (type : string) (text : string) (position : Position)
            (children : option (list CstNode)).
Set Elimination Schemes.

Definition type (n : CstNode) : string :=
  match n with mkCstNode ty _ _ _ => ty end.
Definition text (n : CstNode) : string :=
  match n with mkCstNode _ tx _ _ => tx end.
Definition position (n : CstNode) : Position :=
  match n with mkCstNode _ _ pos _ => pos end.
Definition children (n : CstNode) : option (list CstNode) :=
  match n with mkCstNode _ _ _ cs => cs end.

(** [{ ...node, children: cs }] *)
Definition with_children (node : CstNode) (cs : list CstNode) : CstNode :=
  mkCstNode (type node) (text node) (position node) (Some cs).

(** [function isToken(node) { return node.children === undefined; }] *)
Definition isToken (node : CstNode) : bool :=
  match children node with
  | None => true
  | Some _ => false
  end.

(** [function hasChildren(node)
       { return Array.isArray(node.children) && node.children.length > 0; }] *)
Definition hasChildren (node : CstNode) : bool :=
  match children node with
  | Some cs => Nat.ltb 0%nat (List.length cs)
  | None => false
  end.

End Core.
Export Core.

(* ===================================================================== *)
(** ** Utility functions (docs/api/index.md) *)

Section Walkers.
(** What the callback's side effects act on. *)
Variable St : Type.

(** [function traverse(node, callback)
      { callback(node);
        if (node.children) for (const child of node.children)
          traverse(child, callback); }] *)
Fixpoint traverse (node : CstNode) (callback : CstNode -> St -> St)
         (s : St) : St :=
  let s := callback node s in
  match children node with
  | Some cs => fold_left (fun s child => traverse child callback s) cs s
  | None => s
  end.

(** A computation that reads and updates the state and returns a value. *)
Definition Eff (A : Type) : Type := St -> A * St.
Definition ret {A : Type} (a : A) : Eff A := fun s => (a, s).
Definition bind {A B : Type} (m : Eff A) (k : A -> Eff B) : Eff B :=
  fun s => let (a, s') := m s in k a s'.

(** [function findFirst(root, predicate)
      { if (predicate(root)) return root;
        if (root.children) for (const child of root.children)
          { const found = findFirst(child, predicate);
            if (found) return found; }
        return null; }]
    The predicate is called in the state monad, so that the calls made
    are observable. *)
Fixpoint findFirst (root : CstNode) (predicate : CstNode -> Eff bool)
  : Eff (option CstNode) :=
  bind (predicate root) (fun matched =>
    if matched then ret (Some root)
    else
      match children root with
      | Some cs =>
          (fix loop (rest : list CstNode) : Eff (option CstNode) :=
             match rest with
             | [] => ret None
             | child :: rest' =>
                 bind (findFirst child predicate) (fun found =>
                   match found with
                   | Some f => ret (Some f)
                   | None => loop rest'
                   end)
             end) cs
      | None => ret None
      end).

(** The reference loop: ask the predicate about the nodes of a list, in
    order, and stop at the first one it accepts. *)
Fixpoint scan (predicate : CstNode -> Eff bool) (nodes : list CstNode)
  : Eff (option CstNode) :=
  match nodes with
  | [] => ret None
  | n :: rest =>
      bind (predicate n) (fun matched =>
        if matched then ret (Some n) else scan predicate rest)
  end.
End Walkers.

Arguments ret {St A} a _.
Arguments bind {St A B} m k _.

(** [function findNodesByType(root, type)
      { const results = [];
        traverse(root, node => { if (node.type === type) results.push(node); });
        return results; }] *)
Definition findNodesByType (root : CstNode) (ty : string) : list CstNode :=
  traverse root
    (fun node results =>
       if String.eqb (type node) ty then results ++ [node] else results)
    [].

(** [function getSourceText(node, source)
      { return source.substring(node.position.startOffset,
                                node.position.endOffset); }] *)
Definition getSourceText (node : CstNode) (source : string) : string :=
  js_substring source (startOffset (position node)) (endOffset (position node)).

(** [function filterNodes(node, predicate)
      { if (!predicate(node)) return null;
        if (!node.children) return node;
        const filteredChildren = node.children
          .map(child => filterNodes(child, predicate))
          .filter(child => child !== null);
        return { ...node, children: filteredChildren }; }] *)
Fixpoint filterNodes (node : CstNode) (predicate : CstNode -> bool)
  : option CstNode :=
  if negb (predicate node) then None
  else
    match children node with
    | None => Some node
    | Some cs =>
        let filteredChildren :=
          filter_not_null (map (fun child => filterNodes child predicate) cs) in
        Some (with_children node filteredChildren)
    end.

(** docs/packages/javascript.md:
    [function extractIdentifiers(node)
      { const identifiers = [];
        function traverse(n)
          { if (n.type === 'Identifier') identifiers.push(n.text);
            if (n.children) for (const child of n.children) traverse(child); }
        traverse(node);
        return identifiers; }] *)
Fixpoint extractIdentifiers_traverse (n : CstNode) (identifiers : list string)
  : list string :=
  let identifiers :=
    if String.eqb (type n) "Identifier" then identifiers ++ [text n]
    else identifiers in
  match children n with
  | Some cs =>
      fold_left (fun ids child => extractIdentifiers_traverse child ids)
                cs identifiers
  | None => identifiers
  end.

Definition extractIdentifiers (node : CstNode) : list string :=
  extractIdentifiers_traverse node [].

(* ===================================================================== *)
(** ** Reference enumerations the traversal laws are stated against *)

(** The manual document-order walk: a node, then the walks of its children
    from left to right. *)
Fixpoint preorder (n : CstNode) : list CstNode :=
  n :: match children n with
       | Some cs => flat_map preorder cs
       | None => []
       end.

(** The nodes a first-match search has to look at: the prefix of the list
    that ends with the first accepted node. *)
Fixpoint inspected (p : CstNode -> bool) (nodes : list CstNode)
  : list CstNode :=
  match nodes with
  | [] => []
  | n :: rest => n :: (if p n then [] else inspected p rest)
  end.

(** A callback that records the node it is called on. *)
Definition record_node (n : CstNode) (log : list CstNode) : list CstNode :=
  log ++ [n].

(** A pure predicate that also records the node it is asked about. *)
Definition observed (p : CstNode -> bool) (n : CstNode)
  : Eff (list CstNode) bool :=
  fun log => (p n, log ++ [n]).

(* ===================================================================== *)
(** ** The parse-tree interface consumed from the ANTLR runtime *)

Local Open Scope Z_scope.

Module Antlr.

(** The fields of an antlr4ts [Token] that the source reads. [text] may be
    undefined (the source writes [stop.text?.length || 0]). *)
Record Token : Type := mkToken {
  text : option string;
  startIndex : Z;
  stopIndex : Z;
  line : Z;
  charPositionInLine : Z
}.

(** [ctx.start] and [ctx.stop] of a [ParserRuleContext]; [stop] may be
    undefined (the source writes [ctx.stop || start]). *)
Record ParserRuleContext : Type := mkParserRuleContext {
  start : Token;
  stop : option Token
}.

(** [tok.text?.length || 0] *)
Definition text_length (tok : Token) : Z :=
  match text tok with
  | Some tx => Z.of_nat (String.length tx)
  | None => 0
  end.

(** [ctx.stop || ctx.start] *)
Definition stop_or_start (ctx : ParserRuleContext) : Token :=
  match stop ctx with
  | Some tok => tok
  | None => start ctx
  end.

(** The lexer's convention for a token of the input: [stopIndex] is the
    index of its last character. *)
Definition closed_interval (tok : Token) : Prop :=
  stopIndex tok + 1 = startIndex tok + text_length tok.

End Antlr.

(** A call into code that may throw. *)
Inductive Outcome (A : Type) : Type :=
| Returned (a : A)
| Thrown (error : string).
Arguments Thrown {A} error.

Definition and_then {A B : Type} (m : Outcome A) (k : A -> Outcome B)
  : Outcome B :=
  match m with
  | Returned a => k a
  | Thrown e => Thrown e
  end.

(* ===================================================================== *)
(** ** The adding-languages guide: AstBuilderVisitor and parse *)

Module Guide.
Import Antlr.

(** [interface Position { line; column; offset? }] *)
Record Position : Type := mkPosition {
  line : Z;
  column : Z;
  offset : Z
}.

(** [interface SourceLocation { start: Position; end: Position }] *)
Record SourceLocation : Type := mkSourceLocation {
  loc_start : Position;
  loc_end : Position
}.

(** [private getLocation(ctx)
      { const start = ctx.start;
        const stop = ctx.stop || start;
        return {
          start: { line: start.line, column: start.charPositionInLine,
                   offset: start.startIndex },
          end: { line: stop.line,
                 column: stop.charPositionInLine + (stop.text?.length || 0),
                 offset: stop.stopIndex + 1 } }; }] *)
Definition getLocation (ctx : ParserRuleContext) : SourceLocation :=
  let start := Antlr.start ctx in
  let stop := stop_or_start ctx in
  {| loc_start := {| line := Antlr.line start;
                     column := charPositionInLine start;
                     offset := startIndex start |};
     loc_end := {| line := Antlr.line stop;
                   column := charPositionInLine stop + text_length stop;
                   offset := stopIndex stop + 1 |} |}.

(** The contexts of the generated Python parser the visitor names, with
    the accessors it calls; [OtherContext] stands for every context type
    the visitor has no method for. *)
Unset Elimination Schemes.
Inductive ParseTree : Type :=
| File_inputContext (rc : ParserRuleContext) (kids : list ParseTree)
| StatementContext (rc : ParserRuleContext)
                   (simple_stmt compound_stmt : option ParseTree)
| Simple_stmtContext (rc : ParserRuleContext) (kids : list ParseTree)
| Expr_stmtContext (rc : ParserRuleContext)
                   (testlist_star_expr : ParseTree) (rest : list ParseTree)
| OtherContext (rule : string) (rc : ParserRuleContext)
               (kids : list ParseTree)
| TerminalNode (symbol : Token).
Set Elimination Schemes.

Definition is_statement (t : ParseTree) : bool :=
  match t with StatementContext _ _ _ => true | _ => false end.

Definition is_small_stmt (t : ParseTree) : bool :=
  match t with
  | OtherContext rule _ _ => String.eqb rule "small_stmt"
  | _ => false
  end.

(** The values the visitor builds: [{ type: 'Unknown' }],
    [{ type: 'Program', body, loc }], [{ type: 'BlockStatement', body, loc }]
    and [{ type: 'ExpressionStatement', expression, loc }]. A visit result
    is an [option]: [visitStatement] may return [null]. *)
Unset Elimination Schemes.
Inductive AstNode : Type :=
| Unknown
| Program (body : list AstNode) (loc : SourceLocation)
| BlockStatement (body : list (option AstNode)) (loc : SourceLocation)
| ExpressionStatement (expression : option AstNode) (loc : SourceLocation).
Set Elimination Schemes.

(** [defaultResult() { return { type: 'Unknown' }; }] *)
Definition defaultResult : AstNode := Unknown.

Section Visitor.
(** [aggregateResult] is inherited from the runtime's
    [AbstractParseTreeVisitor]; the source does not override it. *)
Variable aggregateResult : option AstNode -> option AstNode -> option AstNode.

(** [this.visit(tree)]: dispatch to the method written for the context,
    or to the inherited [visitChildren] / [visitTerminal], which start
    from [defaultResult()].
    - [visitFile_input]: [ctx.statement().map(stmt => this.visit(stmt))
      .filter(Boolean)], tagged ['Program'] with [getLocation(ctx)];
    - [visitStatement]: the visit of [simple_stmt], else of
      [compound_stmt], else [null];
    - [visitSimple_stmt]: the visit of the only [small_stmt], else a
      ['BlockStatement'] of all of them;
    - [visitExpr_stmt]: an ['ExpressionStatement']. *)
Fixpoint visit (tree : ParseTree) : option AstNode :=
  match tree with
  | File_inputContext rc kids =>
      let statements :=
        filter_not_null
          (flat_map (fun k => if is_statement k then [visit k] else [])
                    kids) in
      Some (Program statements (getLocation rc))
  | StatementContext rc simple compound =>
      match simple with
      | Some s => visit s
      | None =>
          match compound with
          | Some c => visit c
          | None => None
          end
      end
  | Simple_stmtContext rc kids =>
      let small_stmts :=
        flat_map (fun k => if is_small_stmt k then [visit k] else [])
                 kids in
      match small_stmts with
      | [only] => only
      | _ => Some (BlockStatement small_stmts (getLocation rc))
      end
  | Expr_stmtContext rc testlist rest =>
      Some (ExpressionStatement (visit testlist) (getLocation rc))
  | OtherContext rule rc kids =>
      fold_left aggregateResult (map visit kids) (Some defaultResult)
  | TerminalNode symbol => Some defaultResult
  end.

(** The generated lexer and parser:
    [CharStreams.fromString], [new PythonLexer], [new CommonTokenStream]
    give the token stream; [new PythonParser(tokenStream).file_input()]
    gives the [File_inputContext], or throws. *)
Variable tokenStream : string -> list Token.
Variable file_input :
  list Token -> Outcome (ParserRuleContext * list ParseTree).

(** [export function parse(code: string): AstNode
      { ...; const tree = parser.file_input();
        const visitor = new AstBuilderVisitor();
        const ast = visitor.visit(tree);
        return ast; }] *)
Definition parse (code : string) : Outcome (option AstNode) :=
  and_then (file_input (tokenStream code)) (fun tree =>
    let ast := visit (File_inputContext (fst tree) (snd tree)) in
    Returned ast).
End Visitor.


End Guide.

(* ===================================================================== *)
(** ** The CST builder of @sylphlab/ast-javascript *)

Module CstBuilder.
Import Antlr.

(** Modelled from the spec: the parse-tree node type the external parser
    hands over (the generated ECMAScript contexts are not part of the
    documented sources). Per the consumed interface it exposes a rule or
    terminal identity, the ordered children and the start and stop tokens;
    the architecture guide shows one as
    [{ type: 'VariableDeclarationContext',
       children: [ { type: 'TerminalNode', text: 'const' }, ... ] }]. *)
Unset Elimination Schemes.
Inductive ParseNode : Type :=
| Terminal (identity : string) (symbol : Token)
| Rule (identity : string) (rc : ParserRuleContext) (kids : list ParseNode).
Set Elimination Schemes.

(** The index just after a token: its start index plus its text length. *)
Definition token_end (tok : Token) : Z := startIndex tok + text_length tok.

Definition token_text (tok : Token) : string :=
  match Antlr.text tok with
  | Some tx => tx
  | None => EmptyString
  end.

(** The tokens under a parse node, in order. What the lexer skips (white
    space: the guide lists the tokens of [const greeting = "Hello";] as
    [CONST, IDENTIFIER, EQUALS, STRING, SEMICOLON]) is not in the tree. *)
Fixpoint tokens (t : ParseNode) : list Token :=
  match t with
  | Terminal _ symbol => [symbol]
  | Rule _ _ kids => flat_map tokens kids
  end.

(** [ctx.text], the runtime's text of a context: the texts of the tokens
    under it, put together. *)
Definition ctx_text (t : ParseNode) : string :=
  String.concat "" (map token_text (tokens t)).

(** Modelled from the spec: getPosition, which the documented visitor
    calls as [this.getPosition(ctx)] and whose body is not in the sources.
    [startOffset] is the index of the rule's first token, [endOffset] the
    last token's start index plus its text length; without a stop token
    the start token is used. *)
Definition getPosition (ctx : ParserRuleContext) : Position :=
  {| startOffset := startIndex (start ctx);
     endOffset := token_end (stop_or_start ctx) |}.

Section Visitor.
(** Modelled from the spec: the dispatch policy. [registered] gives the
    node tag of the constructor written for a rule or terminal identity;
    any other identity gets the fallback tag. *)
Variable registered : string -> option string.

Definition tag (identity : string) : string :=
  match registered identity with
  | Some ty => ty
  | None => "Unknown"%string
  end.

(** docs/development, for a rule context:
    [visitVariableDeclaration(ctx)
      { return { type: 'VariableDeclaration', text: ctx.text,
                 position: this.getPosition(ctx),
                 children: [ /* child nodes */ ] }; }]
    Modelled from the spec: the children, which the documentation leaves
    out, are the visits of the child contexts and terminals in grammar
    order, and a terminal gives a leaf without [children]. *)
Fixpoint visit (t : ParseNode) : CstNode :=
  match t with
  | Terminal identity symbol =>
      mkCstNode (tag identity) (token_text symbol)
                (getPosition (mkParserRuleContext symbol (Some symbol)))
                None
  | Rule identity rc kids =>
      mkCstNode (tag identity)
                (String.concat "" (map token_text (flat_map tokens kids)))
                (getPosition rc)
                (Some (map visit kids))
  end.

(** The external parser: a parse tree, or none when the input could not
    be parsed at all. *)
Variable parser : string -> option ParseNode.

End Visitor.




End CstBuilder.

(* ===================================================================== *)
(** ** Sample data *)

Module Scenario.
Import Antlr CstBuilder.

(** The token with text [tx] that starts at index [at_] on line 1. *)
Definition token (tx : string) (at_ : Z) : Token :=
  {| Antlr.text := Some tx;
     startIndex := at_;
     stopIndex := at_ + Z.of_nat (String.length tx) - 1;
     line := 1;
     charPositionInLine := at_ |}.

(** The end-of-file token the lexer emits after an input of [n]
    characters, and that a rule ending in [EOF]
    ([file_input: (NEWLINE | statement)* EOF]) has as stop token: it starts
    at [n], covers no character and carries the text [<EOF>]. *)
Definition eof (n : Z) : Token :=
  {| Antlr.text := Some "<EOF>"%string;
     startIndex := n;
     stopIndex := n - 1;
     line := 1;
     charPositionInLine := n |}.

(** A small tree to run the utilities on:
    [Program [ Statement [ Identifier a; Literal 1 ]; Identifier b ]]. *)
Definition leaf (ty tx : string) (from to : Z) : CstNode :=
  mkCstNode ty tx (Core.mkPosition from to) None.

Definition sample : CstNode :=
  mkCstNode "Program" "a 1 b" (Core.mkPosition 0 5)
    (Some [ mkCstNode "Statement" "a 1" (Core.mkPosition 0 3)
              (Some [ leaf "Identifier" "a" 0 1; leaf "Literal" "1" 2 3 ]);
            leaf "Identifier" "b" 4 5 ]).

Definition is_program_or_identifier (n : CstNode) : bool :=
  String.eqb (type n) "Program" || String.eqb (type n) "Identifier".

(** [const code = 'const x = 42;';] *)
Definition declaration_code : string := "const x = 42;".

Definition t_const : Token := token "const" 0.
Definition t_x : Token := token "x" 6.
Definition t_assign : Token := token "=" 8.
Definition t_number : Token := token "42" 10.
Definition t_semi : Token := token ";" 12.

(** The parse tree the architecture guide gives for [const x = 42;]:
    [{ type: 'VariableDeclarationContext',
       children: [ { type: 'TerminalNode', text: 'const' },
                   { type: 'IdentifierContext', text: 'x' },
                   { type: 'TerminalNode', text: '=' },
                   { type: 'ExpressionContext', value: 42 },
                   { type: 'TerminalNode', text: ';' } ] }] *)
Definition declaration : ParseNode :=
  Rule "variableDeclaration" (mkParserRuleContext t_const (Some t_semi))
    [ Terminal "CONST" t_const;
      Rule "identifier" (mkParserRuleContext t_x (Some t_x))
           [ Terminal "ID" t_x ];
      Terminal "EQUALS" t_assign;
      Rule "expression" (mkParserRuleContext t_number (Some t_number))
           [ Terminal "NUMBER" t_number ];
      Terminal "SEMICOLON" t_semi ].


End Scenario.

(* ===================================================================== *)
(** ** Further utilities of the documentation *)

(** [String.prototype.endsWith(suffix)]: the last [suffix.length]
    characters of [s] are [suffix]. *)
Definition endsWith (s suffix : string) : bool :=
  let n := String.length s in
  let m := String.length suffix in
  Nat.leb m n && String.eqb (substring (n - m) m s) suffix.

(** docs/api/index.md:
    [function isStatement(node)
      { return node.type.endsWith('Statement') ||
               node.type.endsWith('Declaration'); }] *)
Definition isStatement (node : CstNode) : bool :=
  endsWith (type node) "Statement" || endsWith (type node) "Declaration".

(** [function isExpression(node)
      { return node.type.endsWith('Expression') ||
               node.type === 'Identifier' || node.type === 'Literal'; }] *)
Definition isExpression (node : CstNode) : bool :=
  endsWith (type node) "Expression"
  || String.eqb (type node) "Identifier"
  || String.eqb (type node) "Literal".

(** [interface Stats { identifiers; statements; expressions }] *)
Record Stats : Type := mkStats {
  identifiers : nat;
  statements : nat;
  expressions : nat
}.

(** The callback of [gatherStats]:
    [(n) => { if (n.type === 'Identifier') stats.identifiers++;
              if (isStatement(n)) stats.statements++;
              if (isExpression(n)) stats.expressions++; }] *)
Definition gatherStats_callback (n : CstNode) (stats : Stats) : Stats :=
  let stats :=
    if String.eqb (type n) "Identifier"
    then mkStats (S (identifiers stats)) (statements stats) (expressions stats)
    else stats in
  let stats :=
    if isStatement n
    then mkStats (identifiers stats) (S (statements stats)) (expressions stats)
    else stats in
  if isExpression n
  then mkStats (identifiers stats) (statements stats) (S (expressions stats))
  else stats.

(** [function gatherStats(node)
      { const stats = { identifiers: 0, statements: 0, expressions: 0 };
        traverse(node, (n) => { ... });
        return stats; }] *)
Definition gatherStats (node : CstNode) : Stats :=
  traverse node gatherStats_callback (mkStats 0 0 0).

(** docs/packages/javascript.md:
    [function countStatements(ast)
      { let count = 0;
        function traverse(node)
          { if (node.type.endsWith('Statement') ||
                node.type.endsWith('Declaration')) count++;
            if (node.children)
              for (const child of node.children) traverse(child); }
        traverse(ast);
        return count; }] *)
Fixpoint countStatements_traverse (node : CstNode) (count : nat) : nat :=
  let count :=
    if endsWith (type node) "Statement" || endsWith (type node) "Declaration"
    then S count else count in
  match children node with
  | Some cs =>
      fold_left (fun c child => countStatements_traverse child c) cs count
  | None => count
  end.

Definition countStatements (ast : CstNode) : nat :=
  countStatements_traverse ast 0%nat.

(** docs/api/index.md:
    [function hasIdentifier(node, name)
      { if (node.type === 'Identifier' && node.text === name) return true;
        if (node.children)
          for (const child of node.children)
            if (hasIdentifier(child, name)) return true;
        return false; }] *)
Fixpoint hasIdentifier (node : CstNode) (name : string) : bool :=
  if String.eqb (type node) "Identifier" && String.eqb (text node) name
  then true
  else
    match children node with
    | Some cs =>
        (fix loop (rest : list CstNode) : bool :=
           match rest with
           | [] => false
           | child :: rest' =>
               if hasIdentifier child name then true else loop rest'
           end) cs
    | None => false
    end.

(** All the results of an array of calls, if every call returned. *)
Fixpoint all_returned {A : Type} (xs : list (option A)) : option (list A) :=
  match xs with
  | [] => Some []
  | None :: _ => None
  | Some x :: rest =>
      match all_returned rest with
      | Some ys => Some (x :: ys)
      | None => None
      end
  end.

(** docs/api/index.md:
    [function transformNode(node, transformer)
      { const transformed = transformer(node);
        if (transformed.children)
          return { ...transformed,
                   children: transformed.children.map(
                     child => transformNode(child, transformer)) };
        return transformed; }]
    The recursion is on the children of what the transformer returned, not
    on the children of [node], so the call need not return: [fuel] bounds
    the depth of the calls, and [None] is a call that has not returned
    within it. *)
Fixpoint transformNode (fuel : nat) (node : CstNode)
         (transformer : CstNode -> CstNode) : option CstNode :=
  match fuel with
  | O => None
  | S fuel' =>
      let transformed := transformer node in
      match children transformed with
      | Some cs =>
          match all_returned
                  (map (fun child => transformNode fuel' child transformer) cs)
          with
          | Some cs' => Some (with_children transformed cs')
          | None => None
          end
      | None => Some transformed
      end
  end.

(** docs/packages/core:
    [function extractText(node)
      { if (!node.children || node.children.length === 0) return node.text;
        return node.children.map(extractText).join(''); }] *)
Fixpoint extractText (node : CstNode) : string :=
  match children node with
  | None => text node
  | Some [] => text node
  | Some cs => String.concat "" (map extractText cs)
  end.

(** [' '.repeat(n)] *)
Fixpoint spaces (n : nat) : string :=
  match n with
  | O => EmptyString
  | S n' => String " " (spaces n')
  end.

(** The line [prettyPrint] logs for a node:
    [`${' '.repeat(indent * 2)}${node.type}: ${node.text.substring(0, 20)}...`] *)
Definition pretty_line (node : CstNode) (indent : nat) : string :=
  (spaces (indent * 2) ++ type node ++ ": "
   ++ js_substring (text node) 0 20 ++ "...")%string.

(** docs/packages/javascript.md:
    [function prettyPrint(node, indent = 0)
      { const spaces = ' '.repeat(indent * 2);
        console.log(`${spaces}${node.type}: ${node.text.substring(0, 20)}...`);
        if (node.children)
          for (const child of node.children) prettyPrint(child, indent + 1); }]
    The console is the list of the lines logged so far. *)
Fixpoint prettyPrint (node : CstNode) (indent : nat) (console : list string)
  : list string :=
  let console := console ++ [pretty_line node indent] in
  match children node with
  | Some cs =>
      fold_left (fun out child => prettyPrint child (indent + 1) out)
                cs console
  | None => console
  end.

(** *** Reference notions for the properties of these utilities *)

(** Type, text and position of a node: all of it but the children. *)
Definition label (n : CstNode) : string * string * Position :=
  (type n, text n, position n).

(** The depth of the calls a walk of the tree makes. *)
Fixpoint height (n : CstNode) : nat :=
  S match children n with
    | Some cs => fold_right (fun c h => Nat.max (height c) h) 0%nat cs
    | None => 0%nat
    end.

(** The tree with every node replaced by what [f] makes of it, children
    kept in place. *)
Fixpoint relabel (f : CstNode -> CstNode) (n : CstNode) : CstNode :=
  match children n with
  | Some cs =>
      mkCstNode (type (f n)) (text (f n)) (position (f n))
                (Some (map (relabel f) cs))
  | None => mkCstNode (type (f n)) (text (f n)) (position (f n)) None
  end.

(** The nodes that pass [p] together with all their ancestors, in document
    order. *)
Fixpoint kept (p : CstNode -> bool) (n : CstNode) : list CstNode :=
  if p n
  then n :: match children n with
            | Some cs => flat_map (kept p) cs
            | None => []
            end
  else [].


(** How many nodes of a list pass a test. *)
Definition count (p : CstNode -> bool) (l : list CstNode) : nat :=
  List.length (filter p l).

(** A transformer that always answers with a node that has itself as only
    child. *)
Definition wrap (n : CstNode) : CstNode :=
  mkCstNode "Wrapper" (text n) (position n) (Some [n]).

(** The transformer of the documentation's example:
    [(node) => node.type === 'Identifier'
       ? { ...node, text: node.text + '_renamed' } : node] *)
Definition rename (node : CstNode) : CstNode :=
  if String.eqb (type node) "Identifier"
  then mkCstNode (type node) (text node ++ "_renamed") (position node)
                 (children node)
  else node.

(** A predicate that looks at type, text and position only. *)
Definition label_only (p : CstNode -> bool) : Prop :=
  forall n cs, p (with_children n cs) = p n.

(** Every node with children has as text the texts of its children put
    together. *)
Fixpoint contiguous (n : CstNode) : bool :=
  match children n with
  | None => true
  | Some [] => true
  | Some cs =>
      String.eqb (text n) (String.concat "" (map text cs))
      && forallb contiguous cs
  end.

(** *** The guide's visitor *)

Module GuideTrees.
Import Guide.

(** A statement context with neither a simple nor a compound statement
    occurs in the tree. *)
Fixpoint has_empty_statement (t : ParseTree) : bool :=
  match t with
  | File_inputContext _ kids => existsb has_empty_statement kids
  | StatementContext _ simple compound =>
      match simple with
      | Some s => has_empty_statement s
      | None =>
          match compound with
          | Some c => has_empty_statement c
          | None => true
          end
      end
  | Simple_stmtContext _ kids => existsb has_empty_statement kids
  | Expr_stmtContext _ testlist rest =>
      has_empty_statement testlist || existsb has_empty_statement rest
  | OtherContext _ _ kids => existsb has_empty_statement kids
  | TerminalNode _ => false
  end.

(** [ctx.statement().length] *)
Definition statement_count (kids : list ParseTree) : nat :=
  List.length (filter is_statement kids).

(** [ast.body.length] of a visit result. *)
Definition body_length (ast : option AstNode) : option nat :=
  match ast with
  | Some (Program body _) => Some (List.length body)
  | _ => None
  end.

(** An expression statement on one token, as the parser hands it over:
    [statement > simple_stmt > small_stmt > expr_stmt > testlist_star_expr]. *)
Definition statement_of (tok : Antlr.Token) : ParseTree :=
  let rc := Antlr.mkParserRuleContext tok (Some tok) in
  StatementContext rc
    (Some (Simple_stmtContext rc
             [ OtherContext "small_stmt" rc
                 [ Expr_stmtContext rc
                     (OtherContext "testlist_star_expr" rc [TerminalNode tok])
                     [] ] ]))
    None.

(** The children of a [file_input] with three statements, each followed by
    a separator token. *)
Definition three_statements : list ParseTree :=
  [ statement_of (Scenario.token "a" 0);
    TerminalNode (Scenario.token ";" 1);
    statement_of (Scenario.token "b" 2);
    TerminalNode (Scenario.token ";" 3);
    statement_of (Scenario.token "c" 4);
    TerminalNode (Scenario.token ";" 5) ].



(** A parser that hands over [three_statements] for every input. *)
Definition three_statements_parser (tokens : list Antlr.Token)
  : Outcome (Antlr.ParserRuleContext * list ParseTree) :=
  Returned (Antlr.mkParserRuleContext (Scenario.token "a" 0)
                                      (Some (Scenario.token ";" 5)),
            three_statements).

End GuideTrees.

(** The paragraph documented for ast-core, with the children the
    documentation leaves out:
    [{ type: 'Paragraph', text: 'Hello, world!',
       position: { startOffset: 0, endOffset: 13 },
       children: [ { type: 'Word', text: 'Hello', ... },
                   { type: 'Punctuation', text: ',', ... }, ... ] }] *)
Definition paragraph : CstNode :=
  mkCstNode "Paragraph" "Hello, world!" (Core.mkPosition 0 13)
    (Some [ Scenario.leaf "Word" "Hello" 0 5;
            Scenario.leaf "Punctuation" "," 5 6;
            Scenario.leaf "Whitespace" " " 6 7;
            Scenario.leaf "Word" "world" 7 12;
            Scenario.leaf "Punctuation" "!" 12 13 ]).

(* ===================================================================== *)
(** * Properties *)

(** ** Induction on nodes, through the children arrays *)

Section CstNode_induction.
Variable P : CstNode -> Prop.
Hypothesis P_leaf : forall ty tx pos, P (mkCstNode ty tx pos None).
Hypothesis P_node :
  forall ty tx pos cs, Forall P cs -> P (mkCstNode ty tx pos (Some cs)).

Fixpoint CstNode_ind (n : CstNode) : P n :=
  match n with
  | mkCstNode ty tx pos None => P_leaf ty tx pos
  | mkCstNode ty tx pos (Some cs) =>
      P_node ty tx pos
        ((fix all (l : list CstNode) : Forall P l :=
            match l with
            | [] => Forall_nil P
            | c :: l' => Forall_cons c (CstNode_ind c) (all l')
            end) cs)
  end.
End CstNode_induction.

Section ParseNode_induction.
Variable P : CstBuilder.ParseNode -> Prop.
Hypothesis P_terminal : forall identity symbol,
    P (CstBuilder.Terminal identity symbol).
Hypothesis P_rule : forall identity rc kids,
    Forall P kids -> P (CstBuilder.Rule identity rc kids).

End ParseNode_induction.

Section GuideParseTree_induction.
Import Guide.
Variable P : ParseTree -> Prop.

Definition if_present (o : option ParseTree) : Prop :=
  match o with
  | Some t => P t
  | None => True
  end.

Hypothesis P_file_input : forall rc kids,
    Forall P kids -> P (File_inputContext rc kids).
Hypothesis P_statement : forall rc simple compound,
    if_present simple -> if_present compound ->
    P (StatementContext rc simple compound).
Hypothesis P_simple_stmt : forall rc kids,
    Forall P kids -> P (Simple_stmtContext rc kids).
Hypothesis P_expr_stmt : forall rc testlist rest,
    P testlist -> Forall P rest -> P (Expr_stmtContext rc testlist rest).
Hypothesis P_other : forall rule rc kids,
    Forall P kids -> P (OtherContext rule rc kids).
Hypothesis P_terminal : forall symbol, P (TerminalNode symbol).

Fixpoint GuideParseTree_ind (t : ParseTree) : P t :=
  let all :=
    fix all (l : list ParseTree) : Forall P l :=
      match l with
      | [] => Forall_nil P
      | k :: l' => Forall_cons k (GuideParseTree_ind k) (all l')
      end in
  let present :=
    fun o : option ParseTree =>
      match o return if_present o with
      | Some s => GuideParseTree_ind s
      | None => I
      end in
  match t with
  | File_inputContext rc kids => P_file_input rc (all kids)
  | StatementContext rc simple compound =>
      P_statement rc simple compound (present simple) (present compound)
  | Simple_stmtContext rc kids => P_simple_stmt rc (all kids)
  | Expr_stmtContext rc testlist rest =>
      P_expr_stmt rc (GuideParseTree_ind testlist) (all rest)
  | OtherContext rule rc kids => P_other rule rc (all kids)
  | TerminalNode symbol => P_terminal symbol
  end.
End GuideParseTree_induction.

(** ** Traversal order *)

Lemma fold_left_children_flat_map (St : Type) (A : Type)
      (walk : A -> St -> St) (enum : A -> list A)
      (step : A -> St -> St) (cs : list A) :
  Forall (fun c => forall s, walk c s = fold_left (fun s n => step n s) (enum c) s) cs ->
  forall s,
    fold_left (fun s c => walk c s) cs s
    = fold_left (fun s n => step n s) (flat_map enum cs) s.
Proof.
  induction 1 as [|c cs Hc _ IH]; intros s; simpl.
  - reflexivity.
  - rewrite fold_left_app, <- Hc. apply IH.
Qed.

Lemma traverse_fold (St : Type) (callback : CstNode -> St -> St)
      (root : CstNode) :
  forall s,
    traverse root callback s
    = fold_left (fun s n => callback n s) (preorder root) s.
Proof.
  induction root as [ty tx pos | ty tx pos cs IH] using CstNode_ind;
    intros s; simpl.
  - reflexivity.
  - apply (fold_left_children_flat_map
             (fun c s => traverse c callback s) preorder callback IH).
Qed.

Lemma fold_left_record (l : list CstNode) :
  forall log, fold_left (fun s n => record_node n s) l log = log ++ l.
Proof.
  induction l as [|n l IH]; intros log; simpl.
  - now rewrite app_nil_r.
  - rewrite IH. unfold record_node. now rewrite <- app_assoc.
Qed.

Lemma fold_left_collect (p : CstNode -> bool) (l : list CstNode) :
  forall acc,
    fold_left (fun results n => if p n then results ++ [n] else results) l acc
    = acc ++ filter p l.
Proof.
  induction l as [|n l IH]; intros acc; simpl.
  - now rewrite app_nil_r.
  - rewrite IH. destruct (p n); simpl; [now rewrite <- app_assoc | reflexivity].
Qed.

(** C5. Traversal-order law: [traverse] calls its callback on the nodes of
    the manual document-order walk [preorder], in that order (for any
    effect of the callback, and in particular for the callback that records
    the node), and [findNodesByType] returns the nodes of that walk with the
    requested type, in the same order. *)
Theorem traversal_order (root : CstNode) :
  (forall (St : Type) (callback : CstNode -> St -> St) (s : St),
      traverse root callback s
      = fold_left (fun s n => callback n s) (preorder root) s)
  /\ traverse root record_node [] = preorder root
  /\ (forall ty : string,
         findNodesByType root ty
         = filter (fun n => String.eqb (type n) ty) (preorder root)).
Proof.
  split; [| split].
  - intros St callback s. apply traverse_fold.
  - rewrite traverse_fold. apply fold_left_record.
  - intros ty. unfold findNodesByType. rewrite traverse_fold.
    apply (fold_left_collect (fun n => String.eqb (type n) ty)).
Qed.

Example traversal_order_sample :
  map type (traverse Scenario.sample record_node [])
  = ["Program"; "Statement"; "Identifier"; "Literal"; "Identifier"]%string
  /\ map text (findNodesByType Scenario.sample "Identifier")
     = ["a"; "b"]%string.
Proof. split; reflexivity. Qed.

(** ** Find-first *)

Lemma scan_app (St : Type) (predicate : CstNode -> Eff St bool)
      (l1 l2 : list CstNode) :
  forall s,
    scan predicate (l1 ++ l2) s
    = let (found, s') := scan predicate l1 s in
      match found with
      | Some f => (Some f, s')
      | None => scan predicate l2 s'
      end.
Proof.
  induction l1 as [|n l1 IH]; intros s; simpl.
  - reflexivity.
  - unfold bind. destruct (predicate n s) as [[|] s'].
    + reflexivity.
    + apply IH.
Qed.

Lemma findFirst_scan (St : Type) (predicate : CstNode -> Eff St bool)
      (root : CstNode) :
  forall s, findFirst root predicate s = scan predicate (preorder root) s.
Proof.
  induction root as [ty tx pos | ty tx pos cs IH] using CstNode_ind;
    intros s; simpl; unfold bind;
    destruct (predicate _ s) as [[|] s']; try reflexivity.
  revert s'. induction IH as [|c cs Hc _ IHcs]; intros s'; simpl.
  - reflexivity.
  - rewrite scan_app, Hc.
    destruct (scan predicate (preorder c) s') as [[f|] s'']; [reflexivity|].
    apply IHcs.
Qed.

Lemma scan_observed (p : CstNode -> bool) (l : list CstNode) :
  forall log,
    scan (observed p) l log = (find p l, log ++ inspected p l).
Proof.
  induction l as [|n l IH]; intros log; simpl.
  - now rewrite app_nil_r.
  - unfold bind, observed at 1. destruct (p n); simpl.
    + reflexivity.
    + rewrite IH. now rewrite <- app_assoc.
Qed.

Lemma inspected_prefix (p : CstNode -> bool) (l : list CstNode) :
  exists rest, l = inspected p l ++ rest.
Proof.
  induction l as [|n l [rest IH]]; simpl.
  - now exists [].
  - destruct (p n).
    + now exists l.
    + exists rest. simpl. now rewrite <- IH.
Qed.

Lemma inspected_stops (p : CstNode -> bool) (l : list CstNode) :
  match find p l with
  | Some m =>
      p m = true
      /\ exists before,
           inspected p l = before ++ [m]
           /\ forallb (fun n => negb (p n)) before = true
  | None => inspected p l = l
  end.
Proof.
  induction l as [|n l IH]; simpl.
  - reflexivity.
  - destruct (p n) eqn:Hn.
    + split; [exact Hn|]. now exists [].
    + destruct (find p l) as [m|].
      * destruct IH as [Hm [before [E B]]]. split; [exact Hm|].
        exists (n :: before). simpl. now rewrite E, Hn, B.
      * now rewrite IH.
Qed.

(** C6. Find-first: [findFirst] returns the first node of the document-order
    walk that satisfies the predicate, or the absent result when none does,
    and the nodes it asks the predicate about are exactly the walk up to
    that first match: every node before the match fails the predicate and
    nothing after it is looked at. For a predicate with any effect,
    [findFirst] runs as the first-match loop over the walk. *)
Theorem findFirst_short_circuits (root : CstNode) (p : CstNode -> bool) :
  findFirst root (observed p) []
  = (find p (preorder root), inspected p (preorder root))
  /\ (exists rest, preorder root = inspected p (preorder root) ++ rest)
  /\ match find p (preorder root) with
     | Some m =>
         p m = true
         /\ exists before,
              inspected p (preorder root) = before ++ [m]
              /\ forallb (fun n => negb (p n)) before = true
     | None => inspected p (preorder root) = preorder root
     end
  /\ (forall (St : Type) (predicate : CstNode -> Eff St bool) (s : St),
         findFirst root predicate s = scan predicate (preorder root) s).
Proof.
  repeat split.
  - rewrite findFirst_scan. apply scan_observed.
  - apply inspected_prefix.
  - apply inspected_stops.
  - intros St predicate s. apply findFirst_scan.
Qed.

Example findFirst_sample :
  let is_identifier := fun n => String.eqb (type n) "Identifier" in
  let (found, asked) := findFirst Scenario.sample (observed is_identifier) [] in
  option_map text found = Some "a"%string
  /\ map type asked = ["Program"; "Statement"; "Identifier"]%string.
Proof. split; reflexivity. Qed.

(** ** Filter *)

Lemma filter_not_null_all (cs : list CstNode) (f : CstNode -> option CstNode) :
  Forall (fun c => f c = Some c) cs ->
  filter_not_null (map f cs) = cs.
Proof.
  induction 1 as [|c cs Hc _ IH]; simpl.
  - reflexivity.
  - now rewrite Hc, IH.
Qed.

Lemma filterNodes_true (t : CstNode) : filterNodes t (fun _ => true) = Some t.
Proof.
  induction t as [ty tx pos | ty tx pos cs IH] using CstNode_ind; simpl.
  - reflexivity.
  - unfold with_children; simpl. now rewrite (filter_not_null_all _ IH).
Qed.

Lemma filterNodes_rejected (t : CstNode) (p : CstNode -> bool) :
  p t = false -> filterNodes t p = None.
Proof.
  intros H. destruct t as [ty tx pos cs]. simpl. now rewrite H.
Qed.

(** C7. Filter identity laws: with the always-true predicate [filterNodes]
    returns the tree itself (equal in every field at every depth); with the
    always-false predicate, and with any predicate the root fails, it
    returns the absent result, which is no node at all. *)
Theorem filter_identity_laws (t : CstNode) (p : CstNode -> bool) :
  filterNodes t (fun _ => true) = Some t
  /\ filterNodes t (fun _ => false) = None
  /\ (p t = false -> filterNodes t p = None).
Proof.
  split; [| split].
  - apply filterNodes_true.
  - now apply filterNodes_rejected.
  - apply filterNodes_rejected.
Qed.

Lemma filter_identity_laws_witness :
  filterNodes Scenario.sample (fun _ => true) = Some Scenario.sample
  /\ filterNodes Scenario.sample (fun _ => false) = None
  /\ filterNodes Scenario.sample
       (fun n => String.eqb (type n) "Identifier") = None.
Proof.
  destruct (filter_identity_laws Scenario.sample
              (fun n => String.eqb (type n) "Identifier"))
    as [Htrue [Hfalse Hroot]].
  split; [exact Htrue | split; [exact Hfalse | exact (Hroot eq_refl)]].
Defined.

Lemma filter_not_null_none (cs : list CstNode) (f : CstNode -> option CstNode) :
  Forall (fun c => f c = None) cs ->
  filter_not_null (map f cs) = [].
Proof.
  induction 1 as [|c cs Hc _ IH]; simpl.
  - reflexivity.
  - now rewrite Hc.
Qed.

(** C10. Frame of [filterNodes]: for a node that has a children array and
    satisfies the predicate, the result is a node with the same type, text
    and position, whose children array is present and holds the results of
    filtering the children; when the predicate rejects every child, that
    array is present and empty, and the result is not Token-shaped. *)
Theorem filterNodes_frame (n : CstNode) (p : CstNode -> bool)
        (cs : list CstNode) :
  children n = Some cs ->
  p n = true ->
  exists n' : CstNode,
    filterNodes n p = Some n'
    /\ type n' = type n
    /\ text n' = text n
    /\ position n' = position n
    /\ children n'
       = Some (filter_not_null (map (fun child => filterNodes child p) cs))
    /\ isToken n' = false
    /\ (forallb (fun child => negb (p child)) cs = true ->
        children n' = Some []).
Proof.
  intros Hcs Hp. destruct n as [ty tx pos ch]. simpl in Hcs. subst ch.
  exists (with_children (mkCstNode ty tx pos (Some cs))
            (filter_not_null (map (fun child => filterNodes child p) cs))).
  simpl. rewrite Hp. simpl. repeat split.
  intros Hall. f_equal. apply filter_not_null_none.
  rewrite forallb_forall in Hall. apply Forall_forall. intros c Hc.
  apply filterNodes_rejected. specialize (Hall c Hc).
  now destruct (p c).
Qed.

Lemma filterNodes_frame_witness :
  exists n' : CstNode,
    filterNodes Scenario.sample Scenario.is_program_or_identifier = Some n'
    /\ type n' = type Scenario.sample
    /\ text n' = text Scenario.sample
    /\ position n' = position Scenario.sample
    /\ children n' = Some [Scenario.leaf "Identifier" "b" 4 5]
    /\ isToken n' = false.
Proof.
  destruct (@filterNodes_frame Scenario.sample
              Scenario.is_program_or_identifier _ eq_refl eq_refl)
    as [n' [E [Hty [Htx [Hpos [Hch [Htok _]]]]]]].
  exists n'. repeat split; assumption.
Defined.

Example filterNodes_prunes_to_empty :
  filterNodes Scenario.sample (fun n => String.eqb (type n) "Program")
  = Some (mkCstNode "Program" "a 1 b" (Core.mkPosition 0 5) (Some [])).
Proof. reflexivity. Qed.

(** ** Position derivation *)

(** C8, as the code has it. [getLocation] takes the start offset from the
    start index of [ctx.start] and the end offset from the stop index of
    [ctx.stop] plus one, [ctx.start] standing in for an absent [ctx.stop];
    the end column is that token's column plus its text length. The end
    offset is the token's start index plus its text length exactly when
    the token ends at its [stopIndex]. With only a start token the span is
    the [stopIndex - startIndex + 1] characters of that token, and it is
    not empty exactly when the token covers a character. *)
Theorem getLocation_offsets (ctx : Antlr.ParserRuleContext) :
  let loc := Guide.getLocation ctx in
  let last :=
    match Antlr.stop ctx with
    | Some tok => tok
    | None => Antlr.start ctx
    end in
  Guide.offset (Guide.loc_start loc) = Antlr.startIndex (Antlr.start ctx)
  /\ Guide.offset (Guide.loc_end loc) = Antlr.stopIndex last + 1
  /\ Guide.column (Guide.loc_end loc)
     = Antlr.charPositionInLine last + Antlr.text_length last
  /\ (Guide.offset (Guide.loc_end loc)
      = Antlr.startIndex last + Antlr.text_length last
      <-> Antlr.closed_interval last)
  /\ (Antlr.stop ctx = None ->
      Guide.offset (Guide.loc_end loc) - Guide.offset (Guide.loc_start loc)
      = Antlr.stopIndex (Antlr.start ctx)
        - Antlr.startIndex (Antlr.start ctx) + 1
      /\ (Guide.offset (Guide.loc_start loc) < Guide.offset (Guide.loc_end loc)
          <-> Antlr.startIndex (Antlr.start ctx)
              <= Antlr.stopIndex (Antlr.start ctx))).
Proof.
  destruct ctx as [first [last|]]; cbv zeta;
    unfold Guide.getLocation, Antlr.stop_or_start, Antlr.closed_interval;
    simpl.
  - repeat split; try reflexivity; try discriminate; intros H; exact H.
  - repeat split; try reflexivity; try (intros H; exact H); lia.
Qed.

(** C8, as stated, fails on the context of a whole input: the stop token
    of a rule that ends in [EOF] is the end-of-file token, whose text has
    five characters and which covers none, so after the 13 characters of
    [const x = 42;] the end offset is 13 and not 13 + 5; and the context
    of an empty input, which has only that token, gets an empty span. *)
Lemma getLocation_end_of_file :
  let ctx :=
    Antlr.mkParserRuleContext (Scenario.token "const" 0)
                              (Some (Scenario.eof 13)) in
  let empty := Antlr.mkParserRuleContext (Scenario.eof 0) None in
  Guide.offset (Guide.loc_end (Guide.getLocation ctx)) = 13
  /\ Antlr.startIndex (Scenario.eof 13) + Antlr.text_length (Scenario.eof 13)
     = 18
  /\ Guide.offset (Guide.loc_end (Guide.getLocation ctx))
     <> Antlr.startIndex (Scenario.eof 13)
        + Antlr.text_length (Scenario.eof 13)
  /\ Guide.offset (Guide.loc_start (Guide.getLocation empty)) = 0
  /\ Guide.offset (Guide.loc_end (Guide.getLocation empty)) = 0.
Proof.
  cbv zeta. repeat split; try reflexivity. discriminate.
Qed.

Example getLocation_two_tokens :
  let loc := Guide.getLocation
               (Antlr.mkParserRuleContext (Scenario.token "const" 0)
                                          (Some (Scenario.token ";" 12))) in
  (Guide.offset (Guide.loc_start loc), Guide.offset (Guide.loc_end loc),
   Guide.column (Guide.loc_end loc)) = (0, 13, 13).
Proof. reflexivity. Qed.

(** ** The parse entry point of the guide *)



(** ** Spans of the nodes the guide's visitor builds *)




(** ** Token leaves *)

Section BuiltTrees.
Import Antlr CstBuilder.
Variable registered : string -> option string.



End BuiltTrees.




(** ** Round trip of positions *)

Lemma substring_length (s : string) :
  forall n m : nat,
    (n + m <= String.length s)%nat ->
    String.length (substring n m s) = m.
Proof.
  induction s as [|c s IH]; intros n m H; destruct n, m; simpl in *;
    try reflexivity; try lia.
  - f_equal. apply IH. lia.
  - apply IH. lia.
  - apply IH. lia.
Qed.

Lemma js_substring_length (s : string) (a b : Z) :
  0 <= a <= b ->
  b <= Z.of_nat (String.length s) ->
  Z.of_nat (String.length (js_substring s a b)) = b - a.
Proof.
  intros Hab Hb. unfold js_substring.
  rewrite (Z.max_l a 0), (Z.max_l b 0) by lia.
  rewrite (Z.min_l a), (Z.min_l b) by lia.
  rewrite (Z.min_l a b), (Z.max_r a b) by lia.
  rewrite substring_length; lia.
Qed.

(** The node of a rule context cannot satisfy the round trip unless the
    texts of its tokens are as long as its span: any character of the
    source between two of its tokens breaks it. *)
Lemma round_trip_needs_adjacent_tokens
      (registered : string -> option string) (source : string)
      (identity : string) (rc : Antlr.ParserRuleContext)
      (kids : list CstBuilder.ParseNode) :
  let n := CstBuilder.visit registered (CstBuilder.Rule identity rc kids) in
  0 <= startOffset (position n) <= endOffset (position n) ->
  endOffset (position n) <= Z.of_nat (String.length source) ->
  Z.of_nat (String.length
              (CstBuilder.ctx_text (CstBuilder.Rule identity rc kids)))
  <> endOffset (position n) - startOffset (position n) ->
  getSourceText n source <> text n.
Proof.
  cbv zeta. intros Hspan Hend Hlen E. apply Hlen.
  rewrite <- (js_substring_length source Hspan Hend).
  unfold getSourceText in E. rewrite E. reflexivity.
Qed.

(** C2. On [const x = 42;] the documented visitor breaks the round trip:
    the node of the declaration has the position [0, 13), over which the
    source reads [const x = 42;], and as text the runtime's [ctx.text],
    [constx=42;], the texts of the tokens without the white space the
    lexer skipped. *)
Theorem round_trip_breaks_on_declaration
        (registered : string -> option string) :
  let n := CstBuilder.visit registered Scenario.declaration in
  position n = Core.mkPosition 0 13
  /\ text n = "constx=42;"%string
  /\ getSourceText n Scenario.declaration_code = "const x = 42;"%string
  /\ getSourceText n Scenario.declaration_code <> text n.
Proof.
  cbv zeta. split; [reflexivity | split; [reflexivity |]].
  split; [reflexivity | discriminate].
Qed.

(** ** Identifier extraction *)

Lemma extractIdentifiers_traverse_walk (n : CstNode) :
  forall identifiers,
    extractIdentifiers_traverse n identifiers
    = fold_left
        (fun ids m =>
           if String.eqb (type m) "Identifier" then ids ++ [text m] else ids)
        (preorder n) identifiers.
Proof.
  induction n as [ty tx pos | ty tx pos cs IH] using CstNode_ind;
    intros identifiers; simpl.
  - reflexivity.
  - apply (fold_left_children_flat_map
             (fun c ids => extractIdentifiers_traverse c ids) preorder
             (fun m ids =>
                if String.eqb (type m) "Identifier" then ids ++ [text m]
                else ids) IH).
Qed.

Lemma fold_left_collect_text (p : CstNode -> bool) (l : list CstNode) :
  forall acc,
    fold_left (fun ids m => if p m then ids ++ [text m] else ids) l acc
    = acc ++ map text (filter p l).
Proof.
  induction l as [|n l IH]; intros acc; simpl.
  - now rewrite app_nil_r.
  - rewrite IH. destruct (p n); simpl; [now rewrite <- app_assoc | reflexivity].
Qed.

(** X17. [extractIdentifiers] returns the texts of the nodes whose type is
    ['Identifier'], in document order. *)
Theorem extractIdentifiers_walk (node : CstNode) :
  extractIdentifiers node
  = map text
        (filter (fun n => String.eqb (type n) "Identifier") (preorder node)).
Proof.
  unfold extractIdentifiers. rewrite extractIdentifiers_traverse_walk.
  apply (fold_left_collect_text
           (fun n => String.eqb (type n) "Identifier")).
Qed.

(* ===================================================================== *)
(** * Further properties of the utilities *)

(** ** What a filter keeps *)

Lemma label_with_children (n : CstNode) (cs : list CstNode) :
  label (with_children n cs) = label n.
Proof. destruct n; reflexivity. Qed.

Lemma filterNodes_kept (p : CstNode -> bool) (t : CstNode) :
  match filterNodes t p with
  | Some r => map label (preorder r) = map label (kept p t)
  | None => kept p t = []
  end.
Proof.
  induction t as [ty tx pos | ty tx pos cs IH] using CstNode_ind; simpl;
    destruct (p _); simpl; try reflexivity.
  f_equal. induction IH as [|c cs Hc _ IHcs]; simpl.
  - reflexivity.
  - destruct (filterNodes c p) as [r|]; simpl.
    + now rewrite !map_app, Hc, IHcs.
    + now rewrite Hc.
Qed.

Lemma kept_length (p : CstNode -> bool) (t : CstNode) :
  (List.length (kept p t) <= List.length (preorder t))%nat.
Proof.
  induction t as [ty tx pos | ty tx pos cs IH] using CstNode_ind; simpl;
    destruct (p _); simpl; try lia.
  apply le_n_S. induction IH as [|c cs Hc _ IHcs]; simpl.
  - lia.
  - rewrite !length_app. lia.
Qed.

Lemma filterNodes_passes (p : CstNode -> bool) (t : CstNode) :
  p t = match filterNodes t p with Some _ => true | None => false end.
Proof.
  destruct t as [ty tx pos [cs|]]; simpl; now destruct (p _).
Qed.

(** X1. [filterNodes] keeps exactly the nodes that pass the predicate
    together with all their ancestors: the result lists them in document
    order with their type, text and position, and a node below a rejected
    one is dropped whether it passes or not. The result never has more
    nodes than the tree. *)
Theorem filterNodes_keeps_guarded_nodes (p : CstNode -> bool) (t : CstNode) :
  match filterNodes t p with
  | Some r =>
      p t = true
      /\ map label (preorder r) = map label (kept p t)
      /\ (List.length (preorder r) <= List.length (preorder t))%nat
  | None => p t = false /\ kept p t = []
  end.
Proof.
  pose proof (filterNodes_kept p t) as Hk.
  pose proof (kept_length p t) as Hle.
  pose proof (filterNodes_passes p t) as Hp.
  destruct (filterNodes t p) as [r|].
  - split; [exact Hp | split; [exact Hk |]].
    apply (f_equal (@List.length _)) in Hk.
    rewrite !length_map in Hk. now rewrite Hk.
  - split; [exact Hp | exact Hk].
Qed.

Lemma label_only_label (p : CstNode -> bool) (a b : CstNode) :
  label_only p -> label a = label b -> p a = p b.
Proof.
  intros Hp Hl. destruct a as [ty tx pos ca], b as [ty' tx' pos' cb].
  unfold label in Hl. simpl in Hl. injection Hl as -> -> ->.
  destruct cb as [l|].
  - exact (eq_sym (Hp (mkCstNode ty' tx' pos' ca) l)).
  - destruct ca as [l|]; [|reflexivity].
    exact (Hp (mkCstNode ty' tx' pos' None) l).
Qed.

Lemma filterNodes_ext (p q : CstNode -> bool) (t : CstNode) :
  (forall n, p n = q n) -> filterNodes t p = filterNodes t q.
Proof.
  intros E.
  induction t as [ty tx pos | ty tx pos cs IH] using CstNode_ind; simpl;
    rewrite E; [reflexivity|].
  destruct (q _); simpl; [|reflexivity].
  do 3 f_equal. induction IH as [|c cs Hc _ IHcs]; simpl.
  - reflexivity.
  - now rewrite Hc, IHcs.
Qed.

Lemma filterNodes_then (p q : CstNode -> bool) (t : CstNode) :
  label_only q ->
  match filterNodes t p with
  | Some r => filterNodes r q
  | None => None
  end
  = filterNodes t (fun n => p n && q n).
Proof.
  intros Hq.
  induction t as [ty tx pos | ty tx pos cs IH] using CstNode_ind; simpl.
  - destruct (p _); simpl; reflexivity.
  - destruct (p (mkCstNode ty tx pos (Some cs))) eqn:Hp; simpl; [|reflexivity].
    change (mkCstNode ty tx pos
              (Some (filter_not_null
                       (map (fun child => filterNodes child p) cs))))
      with (with_children (mkCstNode ty tx pos (Some cs))
              (filter_not_null (map (fun child => filterNodes child p) cs))).
    rewrite Hq.
    destruct (q (mkCstNode ty tx pos (Some cs))); simpl; [|reflexivity].
    unfold with_children. simpl. do 3 f_equal. clear Hp.
    induction IH as [|c cs' Hc _ IHcs]; simpl.
    + reflexivity.
    + rewrite <- Hc. destruct (filterNodes c p) as [r|]; simpl.
      * destruct (filterNodes r q); simpl; now rewrite IHcs.
      * exact IHcs.
Qed.

(** X2. Filters compose: filtering the result of a filter by [p] with a
    predicate [q] that looks at type, text and position only is filtering
    the tree once by [p] and [q] together. *)
Theorem filterNodes_composes (p q : CstNode -> bool) (t : CstNode) :
  label_only q ->
  match filterNodes t p with
  | Some r => filterNodes r q
  | None => None
  end
  = filterNodes t (fun n => p n && q n).
Proof. apply filterNodes_then. Qed.

Lemma filterNodes_composes_witness :
  match filterNodes Scenario.sample (fun n => negb (String.eqb (type n) "Literal"))
  with
  | Some r => filterNodes r Scenario.is_program_or_identifier
  | None => None
  end
  = filterNodes Scenario.sample
      (fun n => negb (String.eqb (type n) "Literal")
                && Scenario.is_program_or_identifier n).
Proof.
  apply (@filterNodes_composes
           (fun n => negb (String.eqb (type n) "Literal"))
           Scenario.is_program_or_identifier Scenario.sample).
  intros n cs. destruct n. reflexivity.
Defined.

(** X3. For a predicate that looks at type, text and position only,
    filtering is idempotent, and every node of the result satisfies the
    predicate. *)
Theorem filterNodes_idempotent (p : CstNode -> bool) (t r : CstNode) :
  label_only p ->
  filterNodes t p = Some r ->
  filterNodes r p = Some r
  /\ Forall (fun n => p n = true) (preorder r).
Proof.
  intros Hp Hr. split.
  - pose proof (filterNodes_then p t Hp) as H. rewrite Hr in H.
    rewrite H, <- Hr. apply filterNodes_ext. intros n. now destruct (p n).
  - pose proof (filterNodes_kept p t) as Hk. rewrite Hr in Hk.
    assert (Hkept : Forall (fun n => p n = true) (kept p t)).
    { clear. induction t as [ty tx pos | ty tx pos cs IH] using CstNode_ind;
        simpl; destruct (p _) eqn:E; constructor; try exact E;
        try constructor.
      apply Forall_flat_map. exact IH. }
    revert Hk Hkept. generalize (kept p t) as ks. generalize (preorder r) as ns.
    induction ns as [|n ns IH]; intros ks Hk Hkept; [constructor|].
    destruct ks as [|k ks]; [discriminate|].
    simpl in Hk.
    assert (Hl : label n = label k) by congruence.
    assert (Hrest : map label ns = map label ks) by congruence.
    inversion Hkept as [|? ? Hpk Hks]; subst.
    constructor.
    + now rewrite (label_only_label Hp Hl).
    + exact (IH ks Hrest Hks).
Qed.

Lemma filterNodes_idempotent_witness :
  let r := mkCstNode "Program" "a 1 b" (Core.mkPosition 0 5)
             (Some [Scenario.leaf "Identifier" "b" 4 5]) in
  filterNodes r Scenario.is_program_or_identifier = Some r
  /\ Forall (fun n => Scenario.is_program_or_identifier n = true) (preorder r).
Proof.
  intros r.
  apply (@filterNodes_idempotent Scenario.is_program_or_identifier
                                 Scenario.sample r).
  - intros n cs. destruct n. reflexivity.
  - reflexivity.
Defined.

(** ** Searches agree *)

Lemma scan_pure (St : Type) (p : CstNode -> bool) (l : list CstNode) (s : St) :
  scan (fun n s' => (p n, s')) l s = (find p l, s).
Proof.
  induction l as [|n l IH]; simpl.
  - reflexivity.
  - unfold bind. destruct (p n); [reflexivity | exact IH].
Qed.

Lemma find_hd_filter (p : CstNode -> bool) (l : list CstNode) :
  find p l = hd_error (filter p l).
Proof.
  induction l as [|n l IH]; simpl; [reflexivity|].
  destruct (p n); [reflexivity | exact IH].
Qed.

(** X4. [findFirst] with the test for a type returns the first element of
    [findNodesByType] for that type, and the absent result exactly when
    [findNodesByType] returns the empty array; a pure predicate leaves the
    state alone. *)
Theorem findFirst_is_first_of_findNodesByType
        (St : Type) (root : CstNode) (ty : string) (s : St) :
  findFirst root (fun n s' => (String.eqb (type n) ty, s')) s
  = (hd_error (findNodesByType root ty), s).
Proof.
  rewrite findFirst_scan, scan_pure, find_hd_filter.
  unfold findNodesByType. rewrite traverse_fold.
  now rewrite (fold_left_collect (fun n => String.eqb (type n) ty)).
Qed.

Lemma hasIdentifier_existsb (name : string) (n : CstNode) :
  hasIdentifier n name
  = existsb (fun m => String.eqb (type m) "Identifier"
                      && String.eqb (text m) name)
            (preorder n).
Proof.
  induction n as [ty tx pos | ty tx pos cs IH] using CstNode_ind; simpl.
  - now destruct (_ && _).
  - destruct (_ && _); simpl; [reflexivity|].
    induction IH as [|c cs Hc _ IHcs]; simpl.
    + reflexivity.
    + rewrite existsb_app, <- Hc, <- IHcs.
      now destruct (hasIdentifier c name).
Qed.

(** X5. [hasIdentifier] answers whether the name is among the identifiers
    [extractIdentifiers] collects. *)
Theorem hasIdentifier_iff_extracted (node : CstNode) (name : string) :
  hasIdentifier node name = true <-> In name (extractIdentifiers node).
Proof.
  rewrite hasIdentifier_existsb. unfold extractIdentifiers.
  rewrite extractIdentifiers_traverse_walk.
  rewrite (fold_left_collect_text
             (fun n => String.eqb (type n) "Identifier")).
  simpl. rewrite existsb_exists, in_map_iff. split.
  - intros [m [Hin Hm]]. apply andb_prop in Hm. destruct Hm as [Hty Htx].
    exists m. split; [now apply String.eqb_eq in Htx |].
    apply filter_In. now split.
  - intros [m [Htx Hin]]. apply filter_In in Hin. destruct Hin as [Hin Hty].
    exists m. split; [exact Hin|]. rewrite Hty. simpl.
    now apply String.eqb_eq.
Qed.

(** ** Statements, expressions and the statistics *)

Lemma endsWith_get (s suffix : string) (i : nat) :
  endsWith s suffix = true ->
  (i < String.length suffix)%nat ->
  (String.length suffix <= String.length s)%nat
  /\ get (String.length s - String.length suffix + i) s = get i suffix.
Proof.
  unfold endsWith. intros H Hi. apply andb_prop in H. destruct H as [Hle He].
  apply Nat.leb_le in Hle. apply String.eqb_eq in He.
  split; [exact Hle|].
  pose proof (substring_correct1
                s (String.length s - String.length suffix)
                (String.length suffix) i Hi) as G.
  rewrite He in G. rewrite G. f_equal. lia.
Qed.

Lemma endsWith_Statement_Expression (s : string) :
  endsWith s "Statement" = true -> endsWith s "Expression" = true -> False.
Proof.
  intros H1 H2.
  destruct (@endsWith_get s "Statement" 8 H1) as [L1 G1]; [simpl; lia|].
  destruct (@endsWith_get s "Expression" 9 H2) as [L2 G2]; [simpl; lia|].
  simpl in L1, L2, G1, G2.
  replace (String.length s - 9 + 8)%nat with (String.length s - 10 + 9)%nat
    in G1 by lia.
  rewrite G1 in G2. discriminate G2.
Qed.

Lemma endsWith_Declaration_Expression (s : string) :
  endsWith s "Declaration" = true -> endsWith s "Expression" = true -> False.
Proof.
  intros H1 H2.
  destruct (@endsWith_get s "Declaration" 1 H1) as [L1 G1]; [simpl; lia|].
  destruct (@endsWith_get s "Expression" 0 H2) as [L2 G2]; [simpl; lia|].
  simpl in L1, L2, G1, G2.
  replace (String.length s - 11 + 1)%nat with (String.length s - 10 + 0)%nat
    in G1 by lia.
  rewrite G1 in G2. discriminate G2.
Qed.

Lemma isStatement_not_isExpression (node : CstNode) :
  isStatement node && isExpression node = false.
Proof.
  unfold isStatement, isExpression.
  destruct (endsWith (type node) "Statement") eqn:HS;
    destruct (endsWith (type node) "Declaration") eqn:HD;
    destruct (endsWith (type node) "Expression") eqn:HE;
    simpl; try reflexivity;
    try (exfalso; exact (endsWith_Statement_Expression _ HS HE));
    try (exfalso; exact (endsWith_Declaration_Expression _ HD HE));
    destruct (String.eqb (type node) "Identifier") eqn:HI;
    try (apply String.eqb_eq in HI; rewrite HI in *; discriminate);
    destruct (String.eqb (type node) "Literal") eqn:HL;
    try (apply String.eqb_eq in HL; rewrite HL in *; discriminate);
    reflexivity.
Qed.

(** X6. No node is both a statement and an expression for the type guards:
    a type that ends in [Statement] or [Declaration] does not end in
    [Expression] and is neither [Identifier] nor [Literal]. *)
Theorem statement_expression_disjoint (node : CstNode) :
  isStatement node && isExpression node = false
  /\ (isStatement node = true -> isExpression node = false)
  /\ (isExpression node = true -> isStatement node = false).
Proof.
  pose proof (isStatement_not_isExpression node) as H.
  destruct (isStatement node), (isExpression node);
    repeat split; try reflexivity; discriminate.
Qed.

Lemma fold_left_gatherStats (l : list CstNode) :
  forall st,
    fold_left (fun s n => gatherStats_callback n s) l st
    = mkStats
        (identifiers st
         + count (fun n => String.eqb (type n) "Identifier") l)
        (statements st + count isStatement l)
        (expressions st + count isExpression l).
Proof.
  unfold count.
  induction l as [|n l IH]; intros [i s e]; simpl.
  - f_equal; lia.
  - rewrite IH. unfold gatherStats_callback. simpl.
    destruct (String.eqb (type n) "Identifier"), (isStatement n),
      (isExpression n); simpl; f_equal; lia.
Qed.

Lemma countStatements_traverse_walk (n : CstNode) :
  forall c,
    countStatements_traverse n c
    = fold_left (fun c m => if isStatement m then S c else c) (preorder n) c.
Proof.
  induction n as [ty tx pos | ty tx pos cs IH] using CstNode_ind;
    intros c; simpl.
  - reflexivity.
  - apply (fold_left_children_flat_map
             (fun child c => countStatements_traverse child c) preorder
             (fun m c => if isStatement m then S c else c) IH).
Qed.

Lemma fold_left_count (p : CstNode -> bool) (l : list CstNode) :
  forall c,
    fold_left (fun c m => if p m then S c else c) l c = (c + count p l)%nat.
Proof.
  unfold count.
  induction l as [|n l IH]; intros c; simpl.
  - lia.
  - rewrite IH. destruct (p n); simpl; lia.
Qed.

Lemma gatherStats_count (node : CstNode) :
  gatherStats node
  = mkStats
      (count (fun n => String.eqb (type n) "Identifier") (preorder node))
      (count isStatement (preorder node))
      (count isExpression (preorder node)).
Proof.
  unfold gatherStats. now rewrite traverse_fold, fold_left_gatherStats.
Qed.

(** X7. The single traversal of [gatherStats] counts what the separate
    utilities count: its [statements] is the result of [countStatements],
    and its [identifiers] is the number of nodes [findNodesByType] returns
    for ['Identifier'] and the number of names [extractIdentifiers]
    returns. *)
Theorem gatherStats_agrees (node : CstNode) :
  statements (gatherStats node) = countStatements node
  /\ identifiers (gatherStats node)
     = List.length (findNodesByType node "Identifier")
  /\ identifiers (gatherStats node)
     = List.length (extractIdentifiers node).
Proof.
  rewrite gatherStats_count. simpl. repeat split.
  - unfold countStatements.
    now rewrite countStatements_traverse_walk, fold_left_count.
  - unfold findNodesByType. rewrite traverse_fold.
    now rewrite (fold_left_collect
                   (fun n => String.eqb (type n) "Identifier")).
  - unfold extractIdentifiers.
    rewrite extractIdentifiers_traverse_walk.
    rewrite (fold_left_collect_text
               (fun n => String.eqb (type n) "Identifier")).
    simpl. now rewrite length_map.
Qed.

Lemma count_le (p q : CstNode -> bool) (l : list CstNode) :
  (forall n, p n = true -> q n = true) -> (count p l <= count q l)%nat.
Proof.
  intros H. unfold count. induction l as [|n l IH]; simpl; [lia|].
  destruct (p n) eqn:Hp.
  - rewrite (H n Hp). simpl. lia.
  - destruct (q n); simpl; lia.
Qed.

Lemma count_disjoint (p q : CstNode -> bool) (l : list CstNode) :
  (forall n, p n && q n = false) ->
  (count p l + count q l <= List.length l)%nat.
Proof.
  intros H. unfold count. induction l as [|n l IH]; simpl; [lia|].
  specialize (H n). destruct (p n), (q n); simpl in *; try discriminate; lia.
Qed.

(** X8. In the statistics, every identifier is counted as an expression,
    and no node is counted twice among statements and expressions: the
    identifiers are at most the expressions, and statements and expressions
    together are at most the nodes of the tree. *)
Theorem gatherStats_bounds (node : CstNode) :
  (identifiers (gatherStats node) <= expressions (gatherStats node))%nat
  /\ (statements (gatherStats node) + expressions (gatherStats node)
      <= List.length (preorder node))%nat.
Proof.
  rewrite gatherStats_count. simpl. split.
  - apply count_le. intros n H. unfold isExpression. rewrite H.
    now rewrite orb_true_r.
  - apply count_disjoint. exact isStatement_not_isExpression.
Qed.

(** ** Transformation *)

Lemma all_returned_map (f : CstNode -> option CstNode)
      (g : CstNode -> CstNode) (cs : list CstNode) :
  Forall (fun c => f c = Some (g c)) cs ->
  all_returned (map f cs) = Some (map g cs).
Proof.
  induction 1 as [|c cs Hc _ IH]; simpl.
  - reflexivity.
  - now rewrite Hc, IH.
Qed.

Lemma height_child (cs : list CstNode) (c : CstNode) :
  In c cs ->
  (height c <= fold_right (fun c h => Nat.max (height c) h) 0 cs)%nat.
Proof.
  induction cs as [|d cs IH]; simpl; [contradiction|].
  intros [-> | Hin]; [lia|]. specialize (IH Hin). lia.
Qed.

Lemma transformNode_relabel (f : CstNode -> CstNode) :
  (forall n, children (f n) = children n) ->
  forall (t : CstNode) (fuel : nat),
    (height t <= fuel)%nat ->
    transformNode fuel t f = Some (relabel f t).
Proof.
  intros Hf.
  induction t as [ty tx pos | ty tx pos cs IH] using CstNode_ind;
    intros fuel Hfuel; (destruct fuel as [|fuel]; [simpl in Hfuel; lia|]);
    simpl; rewrite Hf; simpl.
  - f_equal. specialize (Hf (mkCstNode ty tx pos None)).
    destruct (f (mkCstNode ty tx pos None)) as [ty' tx' pos' ch'].
    simpl in *. now subst.
  - rewrite (@all_returned_map _ (relabel f)).
    + reflexivity.
    + rewrite Forall_forall in IH |- *. intros c Hc. apply (IH c Hc).
      pose proof (height_child cs c Hc). simpl in Hfuel. lia.
Qed.

Lemma relabel_id (t : CstNode) : relabel (fun n => n) t = t.
Proof.
  induction t as [ty tx pos | ty tx pos cs IH] using CstNode_ind; simpl.
  - reflexivity.
  - do 2 f_equal. induction IH as [|c cs Hc _ IHcs]; simpl.
    + reflexivity.
    + now rewrite Hc, IHcs.
Qed.

Lemma preorder_relabel (f : CstNode -> CstNode) (t : CstNode) :
  map label (preorder (relabel f t)) = map (fun n => label (f n)) (preorder t).
Proof.
  induction t as [ty tx pos | ty tx pos cs IH] using CstNode_ind; simpl.
  - reflexivity.
  - f_equal. induction IH as [|c cs Hc _ IHcs]; simpl.
    + reflexivity.
    + now rewrite !map_app, Hc, IHcs.
Qed.

(** X9. With the identity transformer, [transformNode] returns the tree
    unchanged, once the calls may nest as deep as the tree is high. *)
Theorem transformNode_identity (t : CstNode) (fuel : nat) :
  (height t <= fuel)%nat ->
  transformNode fuel t (fun n => n) = Some t.
Proof.
  intros Hfuel.
  rewrite (@transformNode_relabel (fun n => n) (fun n => eq_refl) t fuel Hfuel).
  now rewrite relabel_id.
Qed.

Lemma transformNode_identity_witness :
  transformNode 3 Scenario.sample (fun n => n) = Some Scenario.sample.
Proof.
  apply (@transformNode_identity Scenario.sample 3). simpl. lia.
Defined.

(** X10. A transformer that leaves the children array of every node as it
    is makes [transformNode] return, and the result is the tree with the
    same shape in which every node carries the type, text and position the
    transformer gives it: the nodes of the result, in document order, are
    the transformed nodes of the tree. *)
Theorem transformNode_relabels (f : CstNode -> CstNode) (t : CstNode)
        (fuel : nat) :
  (forall n, children (f n) = children n) ->
  (height t <= fuel)%nat ->
  exists r,
    transformNode fuel t f = Some r
    /\ r = relabel f t
    /\ map label (preorder r) = map (fun n => label (f n)) (preorder t)
    /\ List.length (preorder r) = List.length (preorder t).
Proof.
  intros Hf Hfuel. exists (relabel f t).
  split; [exact (@transformNode_relabel f Hf t fuel Hfuel) | split; [reflexivity|]].
  pose proof (preorder_relabel f t) as H. split; [exact H|].
  apply (f_equal (@List.length _)) in H. now rewrite !length_map in H.
Qed.

Lemma transformNode_relabels_witness :
  exists r,
    transformNode 3 Scenario.sample rename = Some r
    /\ r = relabel rename Scenario.sample
    /\ map label (preorder r)
       = map (fun n => label (rename n)) (preorder Scenario.sample)
    /\ List.length (preorder r) = List.length (preorder Scenario.sample).
Proof.
  apply (@transformNode_relabels rename Scenario.sample 3).
  - intros n. unfold rename. destruct (String.eqb (type n) "Identifier");
      reflexivity.
  - simpl. lia.
Defined.

Example transformNode_rename_sample :
  option_map (fun r => map text (preorder r))
             (transformNode 3 Scenario.sample rename)
  = Some ["a 1 b"; "a 1"; "a_renamed"; "1"; "b_renamed"]%string.
Proof. reflexivity. Qed.

(** X11. A transformer that answers every node with a node that has
    children keeps [transformNode] descending: whatever the depth allowed,
    the call does not return. *)
Theorem transformNode_diverges (f : CstNode -> CstNode) :
  (forall n, hasChildren (f n) = true) ->
  forall (fuel : nat) (t : CstNode), transformNode fuel t f = None.
Proof.
  intros Hf. induction fuel as [|fuel IH]; intros t; simpl.
  - reflexivity.
  - specialize (Hf t). unfold hasChildren in Hf.
    destruct (children (f t)) as [[|c cs]|]; try discriminate.
    simpl. now rewrite IH.
Qed.

Lemma transformNode_diverges_witness :
  transformNode 1000 Scenario.sample wrap = None.
Proof.
  apply (@transformNode_diverges wrap (fun n => eq_refl) 1000 Scenario.sample).
Defined.

(** ** Text of the leaves *)

Lemma concat_empty_cons (x : string) (xs : list string) :
  String.concat "" (x :: xs) = (x ++ String.concat "" xs)%string.
Proof.
  destruct xs as [|y ys]; simpl.
  - induction x as [|a x IH]; simpl; [reflexivity | now rewrite <- IH].
  - reflexivity.
Qed.

Lemma string_app_assoc (a b c : string) :
  ((a ++ b) ++ c)%string = (a ++ (b ++ c))%string.
Proof. induction a as [|x a IH]; simpl; [reflexivity | now rewrite IH]. Qed.

Lemma concat_empty_app (l1 l2 : list string) :
  String.concat "" (l1 ++ l2)
  = (String.concat "" l1 ++ String.concat "" l2)%string.
Proof.
  induction l1 as [|x l1 IH].
  - reflexivity.
  - change ((x :: l1) ++ l2) with (x :: (l1 ++ l2)).
    now rewrite !concat_empty_cons, IH, string_app_assoc.
Qed.

Lemma extractText_walk (n : CstNode) :
  extractText n
  = String.concat "" (map text (filter (fun m => negb (hasChildren m)) (preorder n))).
Proof.
  induction n as [ty tx pos | ty tx pos cs IH] using CstNode_ind.
  - reflexivity.
  - destruct cs as [|c cs]; [reflexivity|].
    change (extractText (mkCstNode ty tx pos (Some (c :: cs))))
      with (String.concat "" (map extractText (c :: cs))).
    change (filter (fun m => negb (hasChildren m)) (preorder (mkCstNode ty tx pos (Some (c :: cs)))))
      with (filter (fun m => negb (hasChildren m)) (flat_map preorder (c :: cs))).
    induction IH as [|d ds Hd _ IHds].
    + reflexivity.
    + change (map extractText (d :: ds))
        with (extractText d :: map extractText ds).
      change (flat_map preorder (d :: ds))
        with (preorder d ++ flat_map preorder ds).
      now rewrite concat_empty_cons, filter_app, map_app, concat_empty_app,
        Hd, IHds.
Qed.

(** X12. [extractText] returns the texts of the nodes without children (no
    array, or an empty one), put together in document order; the text
    stored in a node that has children plays no part. *)
Theorem extractText_leaves (node : CstNode) :
  extractText node
  = String.concat ""
      (map text (filter (fun m => negb (hasChildren m)) (preorder node))).
Proof. exact (extractText_walk node). Qed.

Lemma extractText_contiguous_text (n : CstNode) :
  contiguous n = true -> extractText n = text n.
Proof.
  induction n as [ty tx pos | ty tx pos cs IH] using CstNode_ind.
  - reflexivity.
  - destruct cs as [|c cs]; [reflexivity|].
    intros H.
    change (contiguous (mkCstNode ty tx pos (Some (c :: cs))))
      with (String.eqb tx (String.concat "" (map text (c :: cs)))
            && forallb contiguous (c :: cs)) in H.
    apply andb_prop in H. destruct H as [Htx Hcs].
    apply String.eqb_eq in Htx.
    change (extractText (mkCstNode ty tx pos (Some (c :: cs))))
      with (String.concat "" (map extractText (c :: cs))).
    simpl text. rewrite Htx. f_equal.
    rewrite forallb_forall in Hcs. rewrite Forall_forall in IH.
    apply map_ext_in. intros d Hd. exact (IH d Hd (Hcs d Hd)).
Qed.

(** X13. On a tree in which every node with children has as text the texts
    of its children put together, [extractText] returns the text of the
    node. *)
Theorem extractText_contiguous (node : CstNode) :
  contiguous node = true -> extractText node = text node.
Proof. apply extractText_contiguous_text. Qed.

Lemma extractText_contiguous_witness :
  extractText paragraph = "Hello, world!"%string.
Proof.
  apply (@extractText_contiguous paragraph). reflexivity.
Defined.

Example extractText_loses_skipped_text :
  extractText Scenario.sample = "a1b"%string
  /\ text Scenario.sample = "a 1 b"%string.
Proof. split; reflexivity. Qed.

(** ** Printing *)





Example prettyPrint_sample :
  prettyPrint Scenario.sample 0 []
  = [ "Program: a 1 b..."; "  Statement: a 1..."; "    Identifier: a...";
      "    Literal: 1..."; "  Identifier: b..." ]%string.
Proof. reflexivity. Qed.

(** ** The guide's visitor *)

Section GuideVisitor.
Import Guide GuideTrees.
Variable aggregateResult : option AstNode -> option AstNode -> option AstNode.

(** The inherited aggregation gives [null] only when handed a [null]. *)
Hypothesis aggregate_keeps_nodes :
  forall a b, aggregateResult a b = None -> a = None \/ b = None.

Lemma fold_left_aggregate_null (results : list (option AstNode)) :
  forall acc,
    fold_left aggregateResult results acc = None ->
    acc = None \/ In None results.
Proof.
  induction results as [|r results IH]; intros acc H; simpl in *.
  - now left.
  - destruct (IH _ H) as [Hagg | Hin]; [|right; now right].
    destruct (@aggregate_keeps_nodes _ _ Hagg) as [-> | ->];
      [now left | right; now left].
Qed.

Lemma selected_null (select : ParseTree -> bool) (kids : list ParseTree) :
  In None (flat_map (fun k => if select k
                              then [visit aggregateResult k] else [])
                    kids) ->
  exists k, In k kids /\ visit aggregateResult k = None.
Proof.
  intros H. apply in_flat_map in H. destruct H as [k [Hk Hin]].
  exists k. split; [exact Hk|].
  destruct (select k); simpl in Hin; [|contradiction].
  destruct Hin as [E | []]. exact E.
Qed.

Lemma null_among (kids : list ParseTree) :
  Forall (fun t => visit aggregateResult t = None ->
                   has_empty_statement t = true) kids ->
  (exists k, In k kids /\ visit aggregateResult k = None) ->
  existsb has_empty_statement kids = true.
Proof.
  intros IH [k [Hk Hnull]]. apply existsb_exists. exists k.
  split; [exact Hk|]. rewrite Forall_forall in IH. exact (IH k Hk Hnull).
Qed.

Lemma visit_null_empty_statement (t : ParseTree) :
  visit aggregateResult t = None -> has_empty_statement t = true.
Proof.
  induction t as [rc kids IH | rc simple compound IHs IHc | rc kids IH
                 | rc testlist rest IHt IHr | rule rc kids IH | symbol]
    using GuideParseTree_ind; simpl; intros H; try discriminate.
  - destruct simple as [s|]; [exact (IHs H)|].
    destruct compound as [c|]; [exact (IHc H) | reflexivity].
  - apply (null_among IH).
    apply (selected_null is_small_stmt).
    destruct (flat_map _ kids) as [|only [|second more]];
      try discriminate.
    subst only. now left.
  - apply (null_among IH).
    destruct (@fold_left_aggregate_null _ _ H) as [Hacc | Hin];
      [discriminate|].
    apply in_map_iff in Hin. destruct Hin as [k [Hnull Hk]].
    now exists k.
Qed.

Lemma body_bound (kids : list ParseTree) :
  (List.length
     (filter_not_null
        (flat_map (fun k => if is_statement k
                            then [visit aggregateResult k] else [])
                  kids))
   <= statement_count kids)%nat.
Proof.
  unfold statement_count. induction kids as [|k kids IH]; simpl; [lia|].
  destruct (is_statement k); simpl; [|exact IH].
  destruct (visit aggregateResult k); simpl; lia.
Qed.

Lemma body_complete (kids : list ParseTree) :
  existsb has_empty_statement kids = false ->
  List.length
    (filter_not_null
       (flat_map (fun k => if is_statement k
                           then [visit aggregateResult k] else [])
                 kids))
  = statement_count kids.
Proof.
  unfold statement_count. induction kids as [|k kids IH]; simpl;
    [reflexivity|].
  intros H. apply orb_false_elim in H. destruct H as [Hk Hkids].
  destruct (is_statement k); simpl; [|exact (IH Hkids)].
  destruct (visit aggregateResult k) eqn:Hv; simpl.
  - now rewrite (IH Hkids).
  - rewrite (@visit_null_empty_statement _ Hv) in Hk. discriminate.
Qed.

End GuideVisitor.

(** X15. The visitor returns [null] only for a tree that contains a
    statement context with neither a simple nor a compound statement: on
    every other tree, and with an aggregation that gives [null] only when
    handed one, [visit] returns a node. *)
Theorem visit_returns_a_node
        (aggregateResult :
           option Guide.AstNode -> option Guide.AstNode -> option Guide.AstNode)
        (t : Guide.ParseTree) :
  (forall a b, aggregateResult a b = None -> a = None \/ b = None) ->
  GuideTrees.has_empty_statement t = false ->
  exists ast, Guide.visit aggregateResult t = Some ast.
Proof.
  intros Hagg Ht.
  destruct (Guide.visit aggregateResult t) as [ast|] eqn:Hv.
  - now exists ast.
  - rewrite (@visit_null_empty_statement _ Hagg t Hv) in Ht. discriminate.
Qed.

Lemma visit_returns_a_node_witness :
  exists ast,
    Guide.visit (fun _ next => next)
                (GuideTrees.statement_of (Scenario.token "a" 0))
    = Some ast.
Proof.
  apply (@visit_returns_a_node
           (fun _ next => next)
           (GuideTrees.statement_of (Scenario.token "a" 0))).
  - intros a b H. now right.
  - reflexivity.
Defined.

Example visit_empty_statement_is_null :
  Guide.visit (fun _ next => next)
    (Guide.StatementContext
       (Antlr.mkParserRuleContext (Scenario.token "a" 0) None) None None)
  = None.
Proof. reflexivity. Qed.

(** X16. When the parser returns a [file_input] context, [parse] returns a
    ['Program'] located by [getLocation] whose body has at most one entry
    per statement child, the other children (separator and end-of-file
    tokens) giving none; it has exactly one entry per statement child when
    no statement context in the tree is empty and the aggregation gives
    [null] only when handed one. *)
Theorem parse_body_per_statement
        (aggregateResult :
           option Guide.AstNode -> option Guide.AstNode -> option Guide.AstNode)
        (tokenStream : string -> list Antlr.Token)
        (file_input :
           list Antlr.Token
           -> Outcome (Antlr.ParserRuleContext * list Guide.ParseTree))
        (code : string) (rc : Antlr.ParserRuleContext)
        (kids : list Guide.ParseTree) :
  file_input (tokenStream code) = Returned (rc, kids) ->
  exists body,
    Guide.parse aggregateResult tokenStream file_input code
    = Returned (Some (Guide.Program body (Guide.getLocation rc)))
    /\ (List.length body <= GuideTrees.statement_count kids)%nat
    /\ ((forall a b, aggregateResult a b = None -> a = None \/ b = None) ->
        existsb GuideTrees.has_empty_statement kids = false ->
        List.length body = GuideTrees.statement_count kids).
Proof.
  intros Hparsed. unfold Guide.parse. rewrite Hparsed. simpl.
  eexists. split; [reflexivity|]. split.
  - apply body_bound.
  - intros Hagg Hkids. exact (@body_complete _ Hagg kids Hkids).
Qed.

Lemma parse_body_per_statement_witness :
  exists body,
    Guide.parse (fun _ next => next) (fun _ => [])
                GuideTrees.three_statements_parser "x = 42"
    = Returned
        (Some (Guide.Program body
                 (Guide.getLocation
                    (Antlr.mkParserRuleContext (Scenario.token "a" 0)
                                               (Some (Scenario.token ";" 5))))))
    /\ List.length body = 3%nat.
Proof.
  destruct (@parse_body_per_statement
              (fun _ next => next) (fun _ => [])
              GuideTrees.three_statements_parser "x = 42"
              _ _ eq_refl)
    as [body [Hparse [_ Hcount]]].
  exists body. split; [exact Hparse|].
  apply Hcount.
  - intros a b H. now right.
  - reflexivity.
Defined.
